(** * Xapian::ESet and Xapian::ESetIterator (xapian-core/include/xapian/eset.h)

    A shallow embedding of the expansion-set container and of its iterator,
    which stores its position as an unsigned offset from the end of the set.
    Unsigned counters are integers in [Z] with the wrap-around of the C++
    type written out. *)

From Stdlib Require Import ZArith List String Bool Lia PrimFloat.
Import ListNotations.
Local Open Scope Z_scope.

Module Xapian.

(** ** Outcome of an operation that may be a caller error *)

Inductive outcome (A : Type) : Type :=
| Returns : A -> outcome A
| CallerError : outcome A.

Arguments Returns {A} _.
Arguments CallerError {A}.

(** A member function whose body has no throw, assertion or abort returns
    its value to the caller. *)
Definition ret {A : Type} (a : A) : outcome A := Returns a.

(** ** The backing data

    Modelled from the spec: the class [ESet::Internal] is only declared in
    the header.  The store is an ordered sequence of (term, weight) entries,
    index 0 first, together with the bound estimate. *)
Record Internal : Type := mkInternal {
  items : list (string * float);
  ebound : Z
}.

(** [Xapian::Internal::intrusive_ptr<Internal> internal]: a shared reference
    to one store, or no store.  The store is never mutated, so the handle is
    modelled by the value it points to. *)
Record ESet : Type := mkESet {
  internal : option Internal
}.

(** Modelled from the spec: the default constructor [ESet::ESet()] is only
    declared in the header.  It creates the empty set, with no store. *)
Definition ESet_default : ESet := {| internal := None |}.

Definition entries (s : ESet) : list (string * float) :=
  match internal s with
  | Some st => items st
  | None => []
  end.

(** [void swap(ESet & o) { internal.swap(o.internal); }] on the pair
    (this, o). *)
Definition ESet_swap (p : ESet * ESet) : ESet * ESet :=
  ({| internal := internal (snd p) |}, {| internal := internal (fst p) |}).

(** [class ESetIterator]: the set iterated over and the offset from its
    end. *)
Record ESetIterator : Type := mkESetIterator {
  eset : ESet;
  off_from_end : Z
}.

(** [ESetIterator() : off_from_end(0) { }]; the member [eset] is
    default-constructed. *)
Definition ESetIterator_default : ESetIterator :=
  {| eset := ESet_default; off_from_end := 0 |}.

(** [operator==]: [return a.off_from_end == b.off_from_end;] *)
Definition operator_eq (a b : ESetIterator) : bool :=
  off_from_end a =? off_from_end b.

(** [operator!=]: [return !(a == b);] *)
Definition operator_ne (a b : ESetIterator) : bool :=
  negb (operator_eq a b).

(** [ESet::end()]: [return ESetIterator( *this, 0);] *)
Definition ESet_end (s : ESet) : ESetIterator :=
  {| eset := s; off_from_end := 0 |}.

(** [ESet::back()]: [return ESetIterator( *this, 1);] *)
Definition ESet_back (s : ESet) : ESetIterator :=
  {| eset := s; off_from_end := 1 |}.

(** The scenario of the specification: two entries and a bound of 5
    (the weight 1.1 is written as the double nearest to it). *)
Definition cat_dog : ESet :=
  {| internal := Some {| items := [("cat"%string, 2.5%float);
                                   ("dog"%string, 0x1.199999999999ap+0%float)];
                         ebound := 5 |} |}.

Section Counters.

(** [Xapian::doccount] and [Xapian::termcount] come from xapian/types.h,
    which is not part of this header: both are taken to be one unsigned
    integer type, whose width in bits is a parameter. *)
Variable bits : positive.

Definition modulus : Z := 2 ^ Z.pos bits.

(** Conversion to the unsigned counter type. *)
Definition wrap (z : Z) : Z := z mod modulus.

(** Modelled from the spec: [ESet::size()] is only declared in the header.
    It delegates to the store, 0 if no store is attached; the result has
    type [Xapian::doccount]. *)
Definition ESet_size (s : ESet) : Z :=
  wrap (Z.of_nat (List.length (entries s))).

(** [bool empty() const { return size() == 0; }] *)
Definition ESet_empty (s : ESet) : bool := ESet_size s =? 0.

(** [Xapian::doccount max_size() const { return size(); }] *)
Definition ESet_max_size (s : ESet) : Z := ESet_size s.

(** Modelled from the spec: [ESet::get_ebound()] is only declared in the
    header.  It delegates to the store, 0 if none is attached. *)
Definition ESet_get_ebound (s : ESet) : Z :=
  match internal s with
  | Some st => wrap (ebound st)
  | None => 0
  end.

(** [ESet::begin()]: [return ESetIterator( *this, size());] *)
Definition ESet_begin (s : ESet) : ESetIterator :=
  {| eset := s; off_from_end := ESet_size s |}.

(** [ESet::operator[](Xapian::doccount i)]:
    [return ESetIterator( *this, size() - i);] in unsigned arithmetic. *)
Definition ESet_index (s : ESet) (i : Z) : ESetIterator :=
  {| eset := s; off_from_end := wrap (ESet_size s - i) |}.

(** Prefix [operator++]: [--off_from_end; return *this;] *)
Definition operator_inc (it : ESetIterator) : ESetIterator :=
  {| eset := eset it; off_from_end := wrap (off_from_end it - 1) |}.

(** Postfix [operator++(int)]: the returned copy and the updated
    iterator. *)
Definition operator_inc_post (it : ESetIterator)
  : ESetIterator * ESetIterator :=
  (it, {| eset := eset it; off_from_end := wrap (off_from_end it - 1) |}).

(** Prefix [operator--]: [++off_from_end; return *this;] *)
Definition operator_dec (it : ESetIterator) : ESetIterator :=
  {| eset := eset it; off_from_end := wrap (off_from_end it + 1) |}.

(** Postfix [operator--(int)]: the returned copy and the updated
    iterator. *)
Definition operator_dec_post (it : ESetIterator)
  : ESetIterator * ESetIterator :=
  (it, {| eset := eset it; off_from_end := wrap (off_from_end it + 1) |}).

(** The loop [for (k = 0; k != n; ++k) ++it;]. *)
Fixpoint advance (n : nat) (it : ESetIterator) : ESetIterator :=
  match n with
  | O => it
  | S k => advance k (operator_inc it)
  end.

(** The loop [for (k = 0; k != n; ++k) --it;]. *)
Fixpoint retreat (n : nat) (it : ESetIterator) : ESetIterator :=
  match n with
  | O => it
  | S k => retreat k (operator_dec it)
  end.

(** Modelled from the spec: [ESetIterator::operator*()] and
    [ESetIterator::get_weight()] are only declared in the header.  Both
    require a position with 0 < off_from_end <= size() and read the entry
    at index size() - off_from_end; anything else is a caller error. *)
Definition current_entry (it : ESetIterator) : outcome (string * float) :=
  if (0 <? off_from_end it) && (off_from_end it <=? ESet_size (eset it))
  then match nth_error (entries (eset it))
                       (Z.to_nat (ESet_size (eset it) - off_from_end it)) with
       | Some e => Returns e
       | None => CallerError
       end
  else CallerError.

Definition operator_deref (it : ESetIterator) : outcome string :=
  match current_entry it with
  | Returns e => Returns (fst e)
  | CallerError => CallerError
  end.

Definition get_weight (it : ESetIterator) : outcome float :=
  match current_entry it with
  | Returns e => Returns (snd e)
  | CallerError => CallerError
  end.

(** A position at which the iterator may be dereferenced. *)
Definition valid_position (it : ESetIterator) : Prop :=
  0 < off_from_end it <= ESet_size (eset it).

(** ** Arithmetic of the unsigned counters *)

Lemma modulus_gt_1 : 1 < modulus.
Proof.
  unfold modulus.
  change 1 with (2 ^ 0).
  apply Z.pow_lt_mono_r; lia.
Qed.

Lemma wrap_range (z : Z) : 0 <= wrap z < modulus.
Proof.
  unfold wrap. apply Z.mod_pos_bound.
  pose proof modulus_gt_1. lia.
Qed.

Lemma wrap_small (z : Z) : 0 <= z < modulus -> wrap z = z.
Proof. intros Hz. unfold wrap. now apply Z.mod_small. Qed.

Lemma wrap_sub_l (a b : Z) : wrap (wrap a - b) = wrap (a - b).
Proof. unfold wrap. apply Zminus_mod_idemp_l. Qed.

Lemma wrap_add_l (a b : Z) : wrap (wrap a + b) = wrap (a + b).
Proof. unfold wrap. apply Zplus_mod_idemp_l. Qed.

Lemma wrap_neg (z : Z) : - modulus <= z < 0 -> wrap z = modulus + z.
Proof.
  intros Hz. unfold wrap.
  symmetry. apply (Z.mod_unique z modulus (-1)); lia.
Qed.

Lemma ESet_size_range (s : ESet) : 0 <= ESet_size s < modulus.
Proof. apply wrap_range. Qed.

Lemma ESet_size_le_length (s : ESet) :
  ESet_size s <= Z.of_nat (List.length (entries s)).
Proof.
  unfold ESet_size, wrap.
  apply Z.mod_le; [lia | pose proof modulus_gt_1; lia].
Qed.

Lemma ESet_size_default : ESet_size ESet_default = 0.
Proof. unfold ESet_size, wrap. simpl. apply Z.mod_0_l. pose proof modulus_gt_1; lia. Qed.

(** ** Equality of iterators *)

Lemma operator_eq_refl (a : ESetIterator) : operator_eq a a = true.
Proof. unfold operator_eq. apply Z.eqb_refl. Qed.

(** C4: two iterators compare equal exactly when their offsets from the end
    are equal, whatever sets they were derived from. *)
Theorem operator_eq_iff_off_from_end (a b : ESetIterator) :
  operator_eq a b = true <-> off_from_end a = off_from_end b.
Proof. unfold operator_eq. apply Z.eqb_eq. Qed.

Lemma operator_ne_iff (a b : ESetIterator) :
  operator_ne a b = true <-> off_from_end a <> off_from_end b.
Proof.
  unfold operator_ne, operator_eq.
  rewrite negb_true_iff. apply Z.eqb_neq.
Qed.

(** C3: begin() and end() compare equal exactly when the set has size 0. *)
Theorem begin_eq_end_iff_size_0 (s : ESet) :
  operator_eq (ESet_begin s) (ESet_end s) = true <-> ESet_size s = 0.
Proof.
  unfold operator_eq, ESet_begin, ESet_end; simpl.
  apply Z.eqb_eq.
Qed.

(** C9: a default-constructed iterator has offset 0 and compares equal to
    end() of every set; it is attached to no store and cannot be
    dereferenced. *)
Theorem default_iterator_eq_end :
  off_from_end ESetIterator_default = 0 /\
  (forall s : ESet,
      operator_eq ESetIterator_default (ESet_end s) = true /\
      operator_eq (ESet_end s) ESetIterator_default = true) /\
  internal (eset ESetIterator_default) = None /\
  operator_deref ESetIterator_default = CallerError /\
  get_weight ESetIterator_default = CallerError.
Proof.
  repeat split.
Qed.

(** ** Positions established by the factories *)

(** C8: begin() is at offset size(), end() at offset 0, operator[] with an
    index i below size() at offset size() - i, and back() at offset 1. *)
Theorem factory_positions (s : ESet) :
  off_from_end (ESet_begin s) = ESet_size s /\
  off_from_end (ESet_end s) = 0 /\
  (forall i : Z, 0 <= i < ESet_size s ->
      off_from_end (ESet_index s i) = ESet_size s - i) /\
  off_from_end (ESet_back s) = 1.
Proof.
  repeat split; simpl.
  intros i Hi. apply wrap_small.
  pose proof (ESet_size_range s). lia.
Qed.

(** C10: max_size() is size() and empty() tells whether size() is 0, for
    every set and in particular for the default-constructed one. *)
Theorem max_size_and_empty (s : ESet) :
  ESet_max_size s = ESet_size s /\
  ESet_empty s = (ESet_size s =? 0) /\
  ESet_max_size ESet_default = 0 /\
  ESet_empty ESet_default = true.
Proof.
  unfold ESet_max_size, ESet_empty.
  rewrite ESet_size_default. repeat split.
Qed.

(** ** Moving an iterator *)

Lemma off_from_end_inc (it : ESetIterator) :
  0 < off_from_end it < modulus ->
  off_from_end (operator_inc it) = off_from_end it - 1.
Proof. intros H. simpl. apply wrap_small. lia. Qed.

Lemma dec_inc_id (it : ESetIterator) :
  0 <= off_from_end it < modulus ->
  operator_dec (operator_inc it) = it.
Proof.
  intros H. destruct it as [s off]. unfold operator_dec, operator_inc; simpl in *.
  f_equal. rewrite wrap_add_l.
  replace (off - 1 + 1) with off by lia. now apply wrap_small.
Qed.

(** C7: from a valid position, advancing and then retreating gives an
    iterator that compares equal to the original one. *)
Theorem inc_then_dec_roundtrip (it : ESetIterator) :
  valid_position it ->
  operator_eq (operator_dec (operator_inc it)) it = true.
Proof.
  intros [Hlo Hhi].
  pose proof (ESet_size_range (eset it)).
  rewrite dec_inc_id by lia.
  apply operator_eq_refl.
Qed.

Lemma dec_end_is_back (s : ESet) : operator_dec (ESet_end s) = ESet_back s.
Proof.
  unfold operator_dec, ESet_end, ESet_back; simpl.
  f_equal. apply wrap_small. pose proof modulus_gt_1. lia.
Qed.

(** C6: on a set of size > 0, back() compares equal to end() retreated
    once, and its offset from the end is 1. *)
Theorem back_eq_dec_end (s : ESet) :
  0 < ESet_size s ->
  operator_eq (ESet_back s) (operator_dec (ESet_end s)) = true /\
  off_from_end (ESet_back s) = 1.
Proof.
  intros _. rewrite dec_end_is_back.
  split; [apply operator_eq_refl | reflexivity].
Qed.

Lemma advance_eset (n : nat) :
  forall it : ESetIterator, eset (advance n it) = eset it.
Proof.
  induction n as [|k IH]; intros it; simpl; [reflexivity|].
  now rewrite IH.
Qed.

Lemma advance_off_from_end (n : nat) :
  forall it : ESetIterator,
    0 <= off_from_end it < modulus ->
    off_from_end (advance n it) = wrap (off_from_end it - Z.of_nat n).
Proof.
  induction n as [|k IH]; intros it Hit.
  - simpl. rewrite Z.sub_0_r. symmetry. now apply wrap_small.
  - cbn [advance]. rewrite IH by (simpl; apply wrap_range).
    simpl off_from_end. rewrite wrap_sub_l.
    f_equal. lia.
Qed.

Lemma advance_begin_is_index (s : ESet) (n : nat) :
  advance n (ESet_begin s) = ESet_index s (Z.of_nat n).
Proof.
  pose proof (advance_eset n (ESet_begin s)) as He.
  pose proof (advance_off_from_end n (ESet_begin s) (ESet_size_range s)) as Ho.
  destruct (advance n (ESet_begin s)) as [s' off]; simpl in *.
  subst. reflexivity.
Qed.

Lemma current_entry_index (s : ESet) (i : Z) :
  0 <= i < ESet_size s ->
  exists e : string * float,
    nth_error (entries s) (Z.to_nat i) = Some e /\
    current_entry (ESet_index s i) = Returns e.
Proof.
  intros Hi.
  pose proof (ESet_size_range s) as Hs.
  pose proof (ESet_size_le_length s) as Hl.
  destruct (nth_error (entries s) (Z.to_nat i)) as [e|] eqn:Hn.
  - exists e. split; [reflexivity|].
    unfold current_entry, ESet_index; simpl.
    rewrite wrap_small by lia.
    replace (0 <? ESet_size s - i) with true by (symmetry; apply Z.ltb_lt; lia).
    replace (ESet_size s - i <=? ESet_size s) with true
      by (symmetry; apply Z.leb_le; lia).
    simpl. replace (ESet_size s - (ESet_size s - i)) with i by lia.
    now rewrite Hn.
  - apply nth_error_None in Hn. lia.
Qed.

(** C2: for an index i below size(), operator[] gives an iterator whose term
    and weight are those of entry i, and so does begin() advanced i
    times. *)
Theorem index_deref_eq_advance_begin (s : ESet) (i : Z) :
  0 <= i < ESet_size s ->
  exists (term : string) (weight : float),
    nth_error (entries s) (Z.to_nat i) = Some (term, weight) /\
    operator_deref (ESet_index s i) = Returns term /\
    get_weight (ESet_index s i) = Returns weight /\
    operator_deref (advance (Z.to_nat i) (ESet_begin s)) = Returns term /\
    get_weight (advance (Z.to_nat i) (ESet_begin s)) = Returns weight.
Proof.
  intros Hi.
  destruct (current_entry_index s i Hi) as [[term weight] [Hn Hc]].
  exists term, weight.
  rewrite advance_begin_is_index, Z2Nat.id by lia.
  unfold operator_deref, get_weight. rewrite Hc.
  repeat split; assumption.
Qed.

(** ** Calls outside the contract *)

(** C5, as the code has it: operator++ on an iterator at offset 0 returns;
    the unsigned counter wraps to the largest value of its type, so the
    result no longer compares equal to the iterator it came from. *)
Theorem inc_at_end_wraps (it : ESetIterator) :
  off_from_end it = 0 ->
  ret (operator_inc it) =
    Returns {| eset := eset it; off_from_end := modulus - 1 |} /\
  operator_eq (operator_inc it) it = false.
Proof.
  intros H0.
  pose proof modulus_gt_1 as Hm.
  assert (Hw : wrap (0 - 1) = modulus - 1)
    by (rewrite wrap_neg; lia).
  unfold ret, operator_inc, operator_eq; simpl.
  rewrite H0, Hw. split; [reflexivity|].
  apply Z.eqb_neq. lia.
Qed.

(** C1, as the code has it: operator[] with an index at or above size()
    and back() on a set of size 0 return.  The offset of operator[] is
    size() - i reduced modulo the range of the counter: the iterator is
    end() itself for i = size() and lies above size() otherwise; back() is
    at offset 1.  Neither is a valid position. *)
Theorem out_of_range_factories_return (s : ESet) :
  (forall i : Z, 0 <= i < modulus -> ESet_size s <= i ->
      ret (ESet_index s i) =
        Returns {| eset := s;
                   off_from_end := if i =? ESet_size s then 0
                                   else modulus - (i - ESet_size s) |} /\
      (i = ESet_size s -> ESet_index s i = ESet_end s) /\
      (ESet_size s < i -> ESet_size s < off_from_end (ESet_index s i)) /\
      ~ valid_position (ESet_index s i)) /\
  (ESet_size s = 0 ->
      ret (ESet_back s) = Returns {| eset := s; off_from_end := 1 |} /\
      ~ valid_position (ESet_back s)).
Proof.
  pose proof (ESet_size_range s) as Hs.
  split.
  - intros i Hi Hle.
    assert (Hoff : off_from_end (ESet_index s i) =
                   if i =? ESet_size s then 0
                   else modulus - (i - ESet_size s)).
    { simpl. destruct (Z.eqb_spec i (ESet_size s)) as [->|Hne].
      - rewrite Z.sub_diag. apply wrap_small. lia.
      - rewrite wrap_neg; lia. }
    unfold ret, valid_position.
    destruct (Z.eqb_spec i (ESet_size s)) as [Heq|Hne].
    + repeat split.
      * unfold ESet_index. f_equal. f_equal. exact Hoff.
      * intros _. unfold ESet_index, ESet_end. f_equal. exact Hoff.
      * lia.
      * rewrite Hoff. simpl. lia.
    + repeat split.
      * unfold ESet_index. f_equal. f_equal. exact Hoff.
      * intros Heq. contradiction.
      * intros _. rewrite Hoff. lia.
      * rewrite Hoff. simpl. lia.
  - intros H0. split; [reflexivity|].
    unfold valid_position; simpl. lia.
Qed.

(** ** Further properties of the iterator arithmetic *)

Lemma wrap_sub_r (a b : Z) : wrap (a - wrap b) = wrap (a - b).
Proof. unfold wrap. apply Zminus_mod_idemp_r. Qed.

Lemma wrap_modulus : wrap modulus = 0.
Proof. unfold wrap. apply Z.mod_same. pose proof modulus_gt_1. lia. Qed.

Lemma wrap_pred_neq (z : Z) : wrap (z - 1) <> z.
Proof.
  intros H. pose proof modulus_gt_1 as Hm.
  pose proof (wrap_range (z - 1)) as Hr. rewrite H in Hr.
  destruct (Z.eq_dec z 0) as [->|Hz].
  - rewrite wrap_neg in H by lia. lia.
  - rewrite wrap_small in H by lia. lia.
Qed.

Lemma wrap_succ_neq (z : Z) : wrap (z + 1) <> z.
Proof.
  intros H. pose proof modulus_gt_1 as Hm.
  pose proof (wrap_range (z + 1)) as Hr. rewrite H in Hr.
  destruct (Z.eq_dec (z + 1) modulus) as [He|Hne].
  - rewrite He, wrap_modulus in H. lia.
  - rewrite wrap_small in H by lia. lia.
Qed.

Lemma wrap_sub_inj (a i j : Z) :
  0 <= i < modulus -> 0 <= j < modulus ->
  wrap (a - i) = wrap (a - j) -> i = j.
Proof.
  intros Hi Hj H. pose proof modulus_gt_1 as Hm.
  unfold wrap in H.
  assert (Hd : ((a - i) - (a - j)) mod modulus = 0).
  { rewrite Zminus_mod, H, Z.sub_diag. apply Z.mod_0_l. lia. }
  apply Z.mod_divide in Hd; [|lia].
  destruct Hd as [k Hk].
  assert (k = 0) by nia. lia.
Qed.

Lemma inc_dec_id (it : ESetIterator) :
  0 <= off_from_end it < modulus ->
  operator_inc (operator_dec it) = it.
Proof.
  intros H. destruct it as [s off]. unfold operator_dec, operator_inc; simpl in *.
  f_equal. rewrite wrap_sub_l.
  replace (off + 1 - 1) with off by lia. now apply wrap_small.
Qed.

Lemma retreat_eset (n : nat) :
  forall it : ESetIterator, eset (retreat n it) = eset it.
Proof.
  induction n as [|k IH]; intros it; simpl; [reflexivity|].
  now rewrite IH.
Qed.

Lemma retreat_off_from_end (n : nat) :
  forall it : ESetIterator,
    0 <= off_from_end it < modulus ->
    off_from_end (retreat n it) = wrap (off_from_end it + Z.of_nat n).
Proof.
  induction n as [|k IH]; intros it Hit.
  - simpl. rewrite Z.add_0_r. symmetry. now apply wrap_small.
  - cbn [retreat]. rewrite IH by (simpl; apply wrap_range).
    simpl off_from_end. rewrite wrap_add_l.
    f_equal. lia.
Qed.

Lemma iterator_eq (a b : ESetIterator) :
  eset a = eset b -> off_from_end a = off_from_end b -> a = b.
Proof. destruct a, b; simpl; intros -> ->; reflexivity. Qed.

(** X1: operator== is an equivalence relation on iterators. *)
Theorem operator_eq_equivalence :
  (forall a : ESetIterator, operator_eq a a = true) /\
  (forall a b : ESetIterator, operator_eq a b = operator_eq b a) /\
  (forall a b c : ESetIterator,
      operator_eq a b = true -> operator_eq b c = true ->
      operator_eq a c = true).
Proof.
  unfold operator_eq. repeat split.
  - intros a. apply Z.eqb_refl.
  - intros a b. apply Z.eqb_sym.
  - intros a b c Hab Hbc.
    apply Z.eqb_eq in Hab, Hbc. apply Z.eqb_eq. congruence.
Qed.

(** X2: operator!= holds exactly when the offsets differ; it is symmetric
    and never holds between an iterator and itself. *)
Theorem operator_ne_complement (a b : ESetIterator) :
  (operator_ne a b = true <-> off_from_end a <> off_from_end b) /\
  operator_ne a b = operator_ne b a /\
  operator_ne a a = false /\
  (operator_ne a b = true <-> operator_eq a b = false).
Proof.
  unfold operator_ne, operator_eq. repeat split.
  - rewrite negb_true_iff. apply Z.eqb_neq.
  - rewrite negb_true_iff. apply Z.eqb_neq.
  - now rewrite Z.eqb_sym.
  - now rewrite Z.eqb_refl.
  - apply negb_true_iff.
  - apply negb_true_iff.
Qed.

(** X3: on every value of the counter, also at end() where the counter
    wraps, operator++ and operator-- undo each other and give back the very
    same iterator. *)
Theorem inc_dec_inverse (it : ESetIterator) :
  0 <= off_from_end it < modulus ->
  operator_dec (operator_inc it) = it /\
  operator_inc (operator_dec it) = it.
Proof.
  intros H. split; [now apply dec_inc_id | now apply inc_dec_id].
Qed.

(** X4: operator++ and operator-- always move: the result never compares
    equal to the iterator they were applied to. *)
Theorem inc_dec_always_move (it : ESetIterator) :
  operator_eq (operator_inc it) it = false /\
  operator_eq (operator_dec it) it = false.
Proof.
  unfold operator_eq; simpl. split; apply Z.eqb_neq.
  - apply wrap_pred_neq.
  - apply wrap_succ_neq.
Qed.

(** X5: the postfix operators return the iterator as it was and move it
    exactly as the prefix operators do; it++ followed by it-- restores the
    iterator. *)
Theorem postfix_operators (it : ESetIterator) :
  operator_inc_post it = (it, operator_inc it) /\
  operator_dec_post it = (it, operator_dec it) /\
  operator_ne (fst (operator_inc_post it)) (snd (operator_inc_post it)) = true /\
  operator_ne (fst (operator_dec_post it)) (snd (operator_dec_post it)) = true /\
  (0 <= off_from_end it < modulus ->
   operator_dec_post (snd (operator_inc_post it)) = (operator_inc it, it)).
Proof.
  repeat split.
  - unfold operator_ne, operator_eq; simpl.
    apply negb_true_iff, Z.eqb_neq.
    intros H. symmetry in H. revert H. apply wrap_pred_neq.
  - unfold operator_ne, operator_eq; simpl.
    apply negb_true_iff, Z.eqb_neq.
    intros H. symmetry in H. revert H. apply wrap_succ_neq.
  - intros H. unfold operator_dec_post, operator_inc_post; simpl.
    f_equal. apply (dec_inc_id it H).
Qed.

(** X6: operator[] is begin() advanced: for every index i >= 0, in range
    or not, advancing begin() i times gives the very iterator that
    operator[] builds; index 0 is begin() and index size() is end(). *)
Theorem index_is_begin_advanced (s : ESet) :
  (forall i : Z, 0 <= i ->
      advance (Z.to_nat i) (ESet_begin s) = ESet_index s i) /\
  ESet_index s 0 = ESet_begin s /\
  ESet_index s (ESet_size s) = ESet_end s.
Proof.
  pose proof (ESet_size_range s) as Hs.
  repeat split.
  - intros i Hi. rewrite advance_begin_is_index. now rewrite Z2Nat.id.
  - unfold ESet_index, ESet_begin. f_equal.
    rewrite Z.sub_0_r. now apply wrap_small.
  - unfold ESet_index, ESet_end. f_equal.
    rewrite Z.sub_diag. apply wrap_small. lia.
Qed.

(** X7: the forward traversal from begin() meets end() after exactly size()
    increments: after n <= size() increments the iterator differs from
    end() as long as n < size(), and is end() itself when n = size(). *)
Theorem traversal_meets_end_at_size (s : ESet) (n : nat) :
  Z.of_nat n <= ESet_size s ->
  (operator_ne (advance n (ESet_begin s)) (ESet_end s) = true <->
   Z.of_nat n < ESet_size s) /\
  (Z.of_nat n = ESet_size s -> advance n (ESet_begin s) = ESet_end s).
Proof.
  intros Hn. pose proof (ESet_size_range s) as Hs.
  assert (Hoff : off_from_end (advance n (ESet_begin s))
                 = ESet_size s - Z.of_nat n).
  { rewrite advance_off_from_end by exact Hs.
    simpl. apply wrap_small. lia. }
  split.
  - rewrite operator_ne_iff, Hoff. simpl. lia.
  - intros He. apply iterator_eq.
    + now rewrite advance_eset.
    + rewrite Hoff. simpl. lia.
Qed.

(** X8: the backward traversal from end(): retreating end() n times gives
    the iterator of index size() - n, which for 1 <= n <= size() is a valid
    position of the same set, and after size() decrements it is begin(). *)
Theorem backward_traversal_from_end (s : ESet) (n : nat) :
  retreat n (ESet_end s) = ESet_index s (ESet_size s - Z.of_nat n) /\
  (1 <= Z.of_nat n <= ESet_size s ->
     eset (retreat n (ESet_end s)) = s /\
     off_from_end (retreat n (ESet_end s)) = Z.of_nat n /\
     valid_position (retreat n (ESet_end s))) /\
  (Z.of_nat n = ESet_size s -> retreat n (ESet_end s) = ESet_begin s).
Proof.
  pose proof (ESet_size_range s) as Hs. pose proof modulus_gt_1 as Hm.
  assert (He : eset (retreat n (ESet_end s)) = s)
    by now rewrite retreat_eset.
  assert (Hoff : off_from_end (retreat n (ESet_end s)) = wrap (Z.of_nat n)).
  { rewrite retreat_off_from_end by (simpl; lia). reflexivity. }
  repeat split.
  - apply iterator_eq; [exact He|].
    rewrite Hoff. simpl. f_equal. lia.
  - exact He.
  - rewrite Hoff. apply wrap_small. lia.
  - rewrite Hoff, wrap_small by lia. lia.
  - rewrite He, Hoff, wrap_small by lia. lia.
  - intros Hn. apply iterator_eq; [exact He|].
    rewrite Hoff, Hn. simpl. now apply wrap_small.
Qed.

(** X9: end() decremented once is back() itself and is the iterator of
    index size() - 1 (computed in the counter type); on a set of size > 0
    it is a valid position of that set. *)
Theorem dec_end_gives_last (s : ESet) :
  operator_dec (ESet_end s) = ESet_back s /\
  ESet_index s (wrap (ESet_size s - 1)) = ESet_back s /\
  eset (operator_dec (ESet_end s)) = s /\
  (0 < ESet_size s -> valid_position (operator_dec (ESet_end s))).
Proof.
  pose proof (ESet_size_range s) as Hs. pose proof modulus_gt_1 as Hm.
  repeat split.
  - apply dec_end_is_back.
  - unfold ESet_index, ESet_back. f_equal.
    rewrite wrap_sub_r.
    replace (ESet_size s - (ESet_size s - 1)) with 1 by lia.
    apply wrap_small. lia.
  - rewrite dec_end_is_back. simpl. lia.
  - rewrite dec_end_is_back. simpl. lia.
Qed.

(** X10: operator[] separates the indexes of the counter type: two
    iterators of one set built from indexes i and j compare equal only if
    i = j. *)
Theorem index_injective (s : ESet) (i j : Z) :
  0 <= i < modulus -> 0 <= j < modulus ->
  (operator_eq (ESet_index s i) (ESet_index s j) = true <-> i = j).
Proof.
  intros Hi Hj. unfold operator_eq; simpl.
  rewrite Z.eqb_eq. split.
  - now apply wrap_sub_inj.
  - intros ->. reflexivity.
Qed.

(** X11: operator++ on the iterator of index i gives the iterator of index
    i + 1, and operator-- on that one gives back the iterator of index i;
    the index is computed in the counter type. *)
Theorem inc_index_is_next_index (s : ESet) (i : Z) :
  operator_inc (ESet_index s i) = ESet_index s (wrap (i + 1)) /\
  operator_dec (ESet_index s (wrap (i + 1))) = ESet_index s i.
Proof.
  unfold operator_inc, operator_dec, ESet_index; simpl.
  split; f_equal.
  - rewrite wrap_sub_l, wrap_sub_r. f_equal. lia.
  - rewrite wrap_sub_r, wrap_add_l. f_equal. lia.
Qed.

(** X12: iterators of different sets are compared by position only: end()
    of any two sets compare equal, and begin(), or the iterators of one
    index, compare equal exactly when the two sets have the same size. *)
Theorem comparison_across_sets (s1 s2 : ESet) :
  operator_eq (ESet_end s1) (ESet_end s2) = true /\
  (operator_eq (ESet_begin s1) (ESet_begin s2) = true <->
   ESet_size s1 = ESet_size s2) /\
  (forall i : Z,
      operator_eq (ESet_index s1 i) (ESet_index s2 i) = true <->
      ESet_size s1 = ESet_size s2).
Proof.
  pose proof (ESet_size_range s1) as H1.
  pose proof (ESet_size_range s2) as H2.
  unfold operator_eq; simpl. repeat split.
  - apply Z.eqb_eq.
  - apply Z.eqb_eq.
  - rewrite Z.eqb_eq. intros H.
    assert (Hw : wrap (ESet_size s1 - i - ESet_size s1)
                 = wrap (ESet_size s1 - i - ESet_size s2)).
    { replace (ESet_size s1 - i - ESet_size s1) with (ESet_size s2 - i - ESet_size s2) by lia.
      rewrite <- (wrap_sub_l (ESet_size s2 - i)), <- H, wrap_sub_l.
      reflexivity. }
    now apply wrap_sub_inj in Hw.
  - intros ->. apply Z.eqb_refl.
Qed.

(** X13: between iterators of one set, operator== is identity: they compare
    equal exactly when they are the same iterator. *)
Theorem operator_eq_same_set (a b : ESetIterator) :
  eset a = eset b ->
  (operator_eq a b = true <-> a = b).
Proof.
  intros He. unfold operator_eq. rewrite Z.eqb_eq. split.
  - now apply iterator_eq.
  - now intros ->.
Qed.

(** X14: operator++ from a valid position stays on the same set and lowers
    the offset by one without wrapping; the result is end() exactly when
    the position was the last one, and is a valid position otherwise. *)
Theorem inc_from_valid_position (it : ESetIterator) :
  valid_position it ->
  eset (operator_inc it) = eset it /\
  off_from_end (operator_inc it) = off_from_end it - 1 /\
  (operator_inc it = ESet_end (eset it) <-> off_from_end it = 1) /\
  (1 < off_from_end it -> valid_position (operator_inc it)).
Proof.
  intros [Hlo Hhi]. pose proof (ESet_size_range (eset it)) as Hs.
  assert (Hoff : off_from_end (operator_inc it) = off_from_end it - 1)
    by (apply off_from_end_inc; lia).
  repeat split.
  - exact Hoff.
  - intros H. apply (f_equal off_from_end) in H.
    rewrite Hoff in H. simpl in H. lia.
  - intros H. apply iterator_eq; [reflexivity|].
    rewrite Hoff. simpl. lia.
  - rewrite Hoff. lia.
  - rewrite Hoff. simpl. lia.
Qed.

(** X15: operator-- on begin() is not checked: the offset becomes
    size() + 1, or wraps to 0 when size() is the largest value of the
    counter; in both cases the result is not a valid position, and
    operator++ brings it back to begin(). *)
Theorem dec_at_begin (s : ESet) :
  off_from_end (operator_dec (ESet_begin s)) =
    (if ESet_size s =? modulus - 1 then 0 else ESet_size s + 1) /\
  ~ valid_position (operator_dec (ESet_begin s)) /\
  operator_inc (operator_dec (ESet_begin s)) = ESet_begin s.
Proof.
  pose proof (ESet_size_range s) as Hs. pose proof modulus_gt_1 as Hm.
  assert (Hoff : off_from_end (operator_dec (ESet_begin s)) =
                 if ESet_size s =? modulus - 1 then 0 else ESet_size s + 1).
  { simpl. destruct (Z.eqb_spec (ESet_size s) (modulus - 1)) as [He|Hne].
    - rewrite He. replace (modulus - 1 + 1) with modulus by lia.
      apply wrap_modulus.
    - apply wrap_small. lia. }
  repeat split.
  - exact Hoff.
  - unfold valid_position. rewrite Hoff. simpl.
    destruct (ESet_size s =? modulus - 1); lia.
  - apply inc_dec_id. exact Hs.
Qed.

(** X16: empty() is the test begin() == end(). *)
Theorem empty_is_begin_eq_end (s : ESet) :
  ESet_empty s = operator_eq (ESet_begin s) (ESet_end s) /\
  (ESet_empty s = false <-> valid_position (ESet_begin s)).
Proof.
  pose proof (ESet_size_range s) as Hs.
  split; [reflexivity|].
  unfold ESet_empty, valid_position; simpl.
  rewrite Z.eqb_neq. lia.
Qed.

(** X17: n increments followed by n decrements, or n decrements followed by
    n increments, give back the very same iterator, whatever wrapping
    happens on the way. *)
Theorem advance_retreat_inverse (n : nat) (it : ESetIterator) :
  0 <= off_from_end it < modulus ->
  retreat n (advance n it) = it /\ advance n (retreat n it) = it.
Proof.
  intros H.
  split; apply iterator_eq.
  - now rewrite retreat_eset, advance_eset.
  - rewrite retreat_off_from_end, advance_off_from_end by
      (try rewrite advance_off_from_end by exact H; try apply wrap_range; exact H).
    rewrite wrap_add_l.
    replace (off_from_end it - Z.of_nat n + Z.of_nat n) with (off_from_end it) by lia.
    now apply wrap_small.
  - now rewrite advance_eset, retreat_eset.
  - rewrite advance_off_from_end, retreat_off_from_end by
      (try rewrite retreat_off_from_end by exact H; try apply wrap_range; exact H).
    rewrite wrap_sub_l.
    replace (off_from_end it + Z.of_nat n - Z.of_nat n) with (off_from_end it) by lia.
    now apply wrap_small.
Qed.

(** X18: swap exchanges the two handles, hence their sizes and the
    iterators they give, and swapping twice restores both. *)
Theorem swap_exchanges (a b : ESet) :
  ESet_swap (a, b) = (b, a) /\
  ESet_size (fst (ESet_swap (a, b))) = ESet_size b /\
  ESet_size (snd (ESet_swap (a, b))) = ESet_size a /\
  ESet_begin (fst (ESet_swap (a, b))) = ESet_begin b /\
  ESet_swap (ESet_swap (a, b)) = (a, b).
Proof.
  destruct a as [ia], b as [ib]. repeat split.
Qed.

End Counters.

(** ** Concrete runs, with counters of 32 bits *)

Ltac by_evaluation :=
  vm_compute; repeat split; solve [reflexivity | discriminate].

(** The scenario read through the iterators. *)
Example cat_dog_size : ESet_size 32 cat_dog = 2.
Proof. reflexivity. Qed.

Example cat_dog_begin :
  operator_deref 32 (ESet_begin 32 cat_dog) = Returns "cat"%string /\
  get_weight 32 (ESet_begin 32 cat_dog) = Returns 2.5%float.
Proof. split; reflexivity. Qed.

Example cat_dog_index_1 :
  operator_deref 32 (ESet_index 32 cat_dog 1) = Returns "dog"%string /\
  ESet_back cat_dog = ESet_index 32 cat_dog 1.
Proof. split; reflexivity. Qed.

Example cat_dog_end_not_dereferenceable :
  operator_deref 32 (ESet_end cat_dog) = CallerError /\
  operator_deref 32 (operator_inc 32 (ESet_end cat_dog)) = CallerError.
Proof. split; reflexivity. Qed.

Example default_set_begin_is_end :
  ESet_empty 32 ESet_default = true /\
  operator_eq (ESet_begin 32 ESet_default) (ESet_end ESet_default) = true.
Proof. split; reflexivity. Qed.

(** On the two-entry scenario, operator[] at index 2 = size() does not fail:
    it returns end().  On the default-constructed set, back() does not fail
    either. *)
Lemma out_of_range_factories_do_not_fail :
  ~ (ESet_size 32 cat_dog <= 2 ->
     ret (ESet_index 32 cat_dog 2) = CallerError) /\
  ESet_index 32 cat_dog 2 = ESet_end cat_dog /\
  ~ (ESet_size 32 ESet_default = 0 ->
     ret (ESet_back ESet_default) = CallerError).
Proof.
  split; [|split].
  - intros H. assert (Hle : ESet_size 32 cat_dog <= 2) by by_evaluation.
    specialize (H Hle). discriminate H.
  - reflexivity.
  - intros H. assert (H0 : ESet_size 32 ESet_default = 0) by reflexivity.
    specialize (H H0). discriminate H.
Qed.

(** On the two-entry scenario, operator++ applied to end() does not fail:
    it returns an iterator whose counter has wrapped to 2^32 - 1. *)
Lemma inc_at_end_does_not_fail :
  off_from_end (ESet_end cat_dog) = 0 /\
  ret (operator_inc 32 (ESet_end cat_dog)) <> CallerError /\
  off_from_end (operator_inc 32 (ESet_end cat_dog)) = 4294967295.
Proof.
  split; [reflexivity|]. split; [discriminate | reflexivity].
Qed.

(** The factories outside their range, run on the scenario (index 3) and on
    the default-constructed set. *)
Lemma out_of_range_factories_return_witness :
  (0 <= 3 < modulus 32 /\ ESet_size 32 cat_dog <= 3 /\
   ret (ESet_index 32 cat_dog 3) =
     Returns {| eset := cat_dog; off_from_end := 4294967295 |} /\
   ~ valid_position 32 (ESet_index 32 cat_dog 3)) /\
  (ESet_size 32 ESet_default = 0 /\
   ret (ESet_back ESet_default) =
     Returns {| eset := ESet_default; off_from_end := 1 |} /\
   ~ valid_position 32 (ESet_back ESet_default)).
Proof.
  assert (Hi : 0 <= 3 < modulus 32) by by_evaluation.
  assert (Hle : ESet_size 32 cat_dog <= 3) by by_evaluation.
  assert (H0 : ESet_size 32 ESet_default = 0) by reflexivity.
  split.
  - destruct (proj1 (out_of_range_factories_return 32 cat_dog) 3 Hi Hle)
      as [Hret [_ [_ Hnv]]].
    repeat split; try assumption; by_evaluation.
  - destruct (proj2 (out_of_range_factories_return 32 ESet_default) H0)
      as [Hret Hnv].
    repeat split; assumption.
Defined.

(** Index 1 of the scenario. *)
Lemma index_deref_eq_advance_begin_witness :
  0 <= 1 < ESet_size 32 cat_dog /\
  exists (term : string) (weight : float),
    nth_error (entries cat_dog) (Z.to_nat 1) = Some (term, weight) /\
    operator_deref 32 (ESet_index 32 cat_dog 1) = Returns term /\
    get_weight 32 (ESet_index 32 cat_dog 1) = Returns weight /\
    operator_deref 32 (advance 32 (Z.to_nat 1) (ESet_begin 32 cat_dog))
      = Returns term /\
    get_weight 32 (advance 32 (Z.to_nat 1) (ESet_begin 32 cat_dog))
      = Returns weight.
Proof.
  assert (Hi : 0 <= 1 < ESet_size 32 cat_dog) by by_evaluation.
  split; [exact Hi|].
  exact (index_deref_eq_advance_begin 32 cat_dog 1 Hi).
Defined.

(** end() of the scenario, advanced. *)
Lemma inc_at_end_wraps_witness :
  off_from_end (ESet_end cat_dog) = 0 /\
  ret (operator_inc 32 (ESet_end cat_dog)) =
    Returns {| eset := cat_dog; off_from_end := modulus 32 - 1 |} /\
  operator_eq (operator_inc 32 (ESet_end cat_dog)) (ESet_end cat_dog) = false.
Proof.
  split; [reflexivity|].
  exact (inc_at_end_wraps 32 (ESet_end cat_dog) eq_refl).
Defined.

(** back() of the scenario. *)
Lemma back_eq_dec_end_witness :
  0 < ESet_size 32 cat_dog /\
  operator_eq (ESet_back cat_dog) (operator_dec 32 (ESet_end cat_dog)) = true /\
  off_from_end (ESet_back cat_dog) = 1.
Proof.
  assert (Hs : 0 < ESet_size 32 cat_dog) by by_evaluation.
  split; [exact Hs|].
  exact (back_eq_dec_end 32 cat_dog Hs).
Defined.

(** begin() of the scenario, advanced and retreated. *)
Lemma inc_then_dec_roundtrip_witness :
  valid_position 32 (ESet_begin 32 cat_dog) /\
  operator_eq (operator_dec 32 (operator_inc 32 (ESet_begin 32 cat_dog)))
              (ESet_begin 32 cat_dog) = true.
Proof.
  assert (Hv : valid_position 32 (ESet_begin 32 cat_dog)) by by_evaluation.
  split; [exact Hv|].
  exact (inc_then_dec_roundtrip 32 (ESet_begin 32 cat_dog) Hv).
Defined.

(** The position of index 1 of the scenario. *)
Lemma factory_positions_witness :
  0 <= 1 < ESet_size 32 cat_dog /\
  off_from_end (ESet_index 32 cat_dog 1) = ESet_size 32 cat_dog - 1.
Proof.
  assert (Hi : 0 <= 1 < ESet_size 32 cat_dog) by by_evaluation.
  split; [exact Hi|].
  exact (proj1 (proj2 (proj2 (factory_positions 32 cat_dog))) 1 Hi).
Defined.

(** ** Runs of the further properties on the scenario *)

(** begin() and operator[] at index 0 of the scenario, against an iterator
    of the default-constructed set moved to the same offset. *)
Lemma operator_eq_equivalence_witness :
  operator_eq (ESet_begin 32 cat_dog) (ESet_index 32 cat_dog 0) = true /\
  operator_eq (ESet_index 32 cat_dog 0)
              (retreat 32 2 ESetIterator_default) = true /\
  operator_eq (ESet_begin 32 cat_dog)
              (retreat 32 2 ESetIterator_default) = true.
Proof.
  assert (H1 : operator_eq (ESet_begin 32 cat_dog) (ESet_index 32 cat_dog 0)
               = true) by reflexivity.
  assert (H2 : operator_eq (ESet_index 32 cat_dog 0)
                           (retreat 32 2 ESetIterator_default) = true)
    by reflexivity.
  split; [exact H1|]. split; [exact H2|].
  exact (proj2 (proj2 operator_eq_equivalence) _ _ _ H1 H2).
Defined.

(** end() of the scenario, where the counter wraps. *)
Lemma inc_dec_inverse_witness :
  0 <= off_from_end (ESet_end cat_dog) < modulus 32 /\
  operator_dec 32 (operator_inc 32 (ESet_end cat_dog)) = ESet_end cat_dog /\
  operator_inc 32 (operator_dec 32 (ESet_end cat_dog)) = ESet_end cat_dog.
Proof.
  assert (H : 0 <= off_from_end (ESet_end cat_dog) < modulus 32)
    by by_evaluation.
  split; [exact H|].
  exact (inc_dec_inverse 32 (ESet_end cat_dog) H).
Defined.

(** begin() of the scenario, advanced and retreated with the postfix
    operators. *)
Lemma postfix_operators_witness :
  0 <= off_from_end (ESet_begin 32 cat_dog) < modulus 32 /\
  operator_dec_post 32 (snd (operator_inc_post 32 (ESet_begin 32 cat_dog))) =
    (operator_inc 32 (ESet_begin 32 cat_dog), ESet_begin 32 cat_dog).
Proof.
  assert (H : 0 <= off_from_end (ESet_begin 32 cat_dog) < modulus 32)
    by by_evaluation.
  split; [exact H|].
  exact (proj2 (proj2 (proj2 (proj2
           (postfix_operators 32 (ESet_begin 32 cat_dog))))) H).
Defined.

(** Index 5 of the scenario, which is out of range. *)
Lemma index_is_begin_advanced_witness :
  0 <= 5 /\
  advance 32 (Z.to_nat 5) (ESet_begin 32 cat_dog) = ESet_index 32 cat_dog 5.
Proof.
  assert (H : 0 <= 5) by by_evaluation.
  split; [exact H|].
  exact (proj1 (index_is_begin_advanced 32 cat_dog) 5 H).
Defined.

(** Two increments on the scenario. *)
Lemma traversal_meets_end_at_size_witness :
  Z.of_nat 2 <= ESet_size 32 cat_dog /\
  Z.of_nat 2 = ESet_size 32 cat_dog /\
  advance 32 2 (ESet_begin 32 cat_dog) = ESet_end cat_dog.
Proof.
  assert (Hle : Z.of_nat 2 <= ESet_size 32 cat_dog) by by_evaluation.
  assert (Heq : Z.of_nat 2 = ESet_size 32 cat_dog) by reflexivity.
  split; [exact Hle|]. split; [exact Heq|].
  exact (proj2 (traversal_meets_end_at_size 32 cat_dog 2 Hle) Heq).
Defined.

(** Two decrements from end() of the scenario. *)
Lemma backward_traversal_from_end_witness :
  1 <= Z.of_nat 2 <= ESet_size 32 cat_dog /\
  Z.of_nat 2 = ESet_size 32 cat_dog /\
  valid_position 32 (retreat 32 2 (ESet_end cat_dog)) /\
  retreat 32 2 (ESet_end cat_dog) = ESet_begin 32 cat_dog.
Proof.
  assert (Hr : 1 <= Z.of_nat 2 <= ESet_size 32 cat_dog) by by_evaluation.
  assert (Heq : Z.of_nat 2 = ESet_size 32 cat_dog) by reflexivity.
  destruct (backward_traversal_from_end 32 cat_dog 2) as [_ [Hv Hb]].
  split; [exact Hr|]. split; [exact Heq|]. split.
  - exact (proj2 (proj2 (Hv Hr))).
  - exact (Hb Heq).
Defined.

(** end() of the scenario, decremented. *)
Lemma dec_end_gives_last_witness :
  0 < ESet_size 32 cat_dog /\
  valid_position 32 (operator_dec 32 (ESet_end cat_dog)).
Proof.
  assert (H : 0 < ESet_size 32 cat_dog) by by_evaluation.
  split; [exact H|].
  exact (proj2 (proj2 (proj2 (dec_end_gives_last 32 cat_dog))) H).
Defined.

(** Indexes 0 and 1 of the scenario. *)
Lemma index_injective_witness :
  0 <= 0 < modulus 32 /\ 0 <= 1 < modulus 32 /\
  (operator_eq (ESet_index 32 cat_dog 0) (ESet_index 32 cat_dog 1) = true
   <-> 0 = 1).
Proof.
  assert (H0 : 0 <= 0 < modulus 32) by by_evaluation.
  assert (H1 : 0 <= 1 < modulus 32) by by_evaluation.
  split; [exact H0|]. split; [exact H1|].
  exact (index_injective 32 cat_dog 0 1 H0 H1).
Defined.

(** back() and operator[] at index 1 of the scenario. *)
Lemma operator_eq_same_set_witness :
  eset (ESet_back cat_dog) = eset (ESet_index 32 cat_dog 1) /\
  (operator_eq (ESet_back cat_dog) (ESet_index 32 cat_dog 1) = true <->
   ESet_back cat_dog = ESet_index 32 cat_dog 1).
Proof.
  assert (H : eset (ESet_back cat_dog) = eset (ESet_index 32 cat_dog 1))
    by reflexivity.
  split; [exact H|].
  exact (operator_eq_same_set (ESet_back cat_dog) (ESet_index 32 cat_dog 1) H).
Defined.

(** begin() of the scenario, which is not the last position. *)
Lemma inc_from_valid_position_witness :
  valid_position 32 (ESet_begin 32 cat_dog) /\
  1 < off_from_end (ESet_begin 32 cat_dog) /\
  off_from_end (operator_inc 32 (ESet_begin 32 cat_dog)) =
    off_from_end (ESet_begin 32 cat_dog) - 1 /\
  valid_position 32 (operator_inc 32 (ESet_begin 32 cat_dog)).
Proof.
  assert (Hv : valid_position 32 (ESet_begin 32 cat_dog)) by by_evaluation.
  assert (H1 : 1 < off_from_end (ESet_begin 32 cat_dog)) by by_evaluation.
  destruct (inc_from_valid_position 32 (ESet_begin 32 cat_dog) Hv)
    as [_ [Hoff [_ Hnext]]].
  split; [exact Hv|]. split; [exact H1|]. split; [exact Hoff|].
  exact (Hnext H1).
Defined.

(** Three steps from end() of the scenario, wrapping on the way. *)
Lemma advance_retreat_inverse_witness :
  0 <= off_from_end (ESet_end cat_dog) < modulus 32 /\
  retreat 32 3 (advance 32 3 (ESet_end cat_dog)) = ESet_end cat_dog /\
  advance 32 3 (retreat 32 3 (ESet_end cat_dog)) = ESet_end cat_dog.
Proof.
  assert (H : 0 <= off_from_end (ESet_end cat_dog) < modulus 32)
    by by_evaluation.
  split; [exact H|].
  exact (advance_retreat_inverse 32 3 (ESet_end cat_dog) H).
Defined.

End Xapian.
